(** * The nRF53 application configuration header and its include guard

    The unit under verification is the header

      port/platform/nordic/nrf53/cfg/u_cfg_app_platform_specific.h

    It contains no C declarations at all: its whole meaning is what the C
    preprocessor does with its four directives

<<
      #ifndef _U_CFG_APP_PLATFORM_SPECIFIC_H_
      #define _U_CFG_APP_PLATFORM_SPECIFIC_H_
      #include "u_runner.h"
      #endif
>>

    The development therefore has two layers.  [Preprocessor] gives the
    meaning of the directives the header is written in (conditional groups,
    object-like macros, file inclusion with a nesting limit).  [Header] is
    the source file itself, line by line, and the properties of its include
    guard.  The file [u_runner.h] is not part of the unit: it is whatever
    the include path resolves the name to, and is universally quantified. *)

From stdpp Require Import gmap strings list fin_maps.

(** ** The preprocessor fragment the header is written in *)

Module Preprocessor.

(** A preprocessing token is kept as its spelling. *)
Abbreviation token := string.

(** One logical source line after comments have been replaced by white
    space (translation phase 3).  [Blank] is a line on which nothing is
    left; [Text] is any line that is not a directive. *)
Inductive line : Type :=
  | Blank
  | IfDef (m : string)
  | IfNDef (m : string)
  | Else
  | EndIf
  | Define (m : string) (body : list token)
  | Undef (m : string)
  | Include (name : string)
  | Text (toks : list token).

Abbreviation file := (list line).

(** The macro table: object-like macros, name to replacement list. *)
Abbreviation macros := (gmap string (list token)).

(** What the include path resolves a quoted name to. *)
Abbreviation include_env := (gmap string file).

(** The preprocessed text: one token list per emitted line. *)
Abbreviation output := (list (list token)).

Inductive pp_error : Type :=
  | FileNotFound (name : string)
  | NestingTooDeep
  | StrayElse
  | StrayEndif
  | UnterminatedConditional.

Inductive result : Type :=
  | Ok (st : macros) (out : output)
  | Err (e : pp_error).

Definition is_ok (r : result) : Prop :=
  match r with Ok _ _ => True | Err _ => False end.

(** [defined m st] is the test made by [#ifdef m]. *)
Definition defined (m : string) (st : macros) : bool :=
  match st !! m with Some _ => true | None => false end.

(** Prefix the lines already emitted to a later result. *)
Definition emit (out : output) (r : result) : result :=
  match r with
  | Ok st out' => Ok st (out ++ out')
  | Err e => Err e
  end.

(** Sequencing: run [k] in the macro state [r] ends in. *)
Definition and_then (r : result) (k : macros -> result) : result :=
  match r with
  | Ok st out => emit out (k st)
  | Err e => Err e
  end.

(** Macro replacement of a text line.  A macro is not replaced again inside
    its own replacement list ([hide]); [fuel] bounds the nesting of
    replacements and [S (size st)] always suffices. *)
Fixpoint expand (fuel : nat) (st : macros) (hide : list string)
    (toks : list token) : list token :=
  match fuel with
  | O => toks
  | S k =>
      flat_map
        (fun t =>
           if bool_decide (t ∈ hide) then [t]
           else match st !! t with
                | Some body => expand k st (t :: hide) body
                | None => [t]
                end)
        toks
  end.

Definition expand_line (st : macros) (toks : list token) : list token :=
  expand (S (size st)) st [] toks.

(** One open conditional group of the current file. *)
Record frame : Type := Frame {
  active : bool;       (* the group being read is processed *)
  enclosing : bool;    (* the text around the conditional is processed *)
  seen_else : bool     (* [#else] was already met *)
}.

Definition is_active (cs : list frame) : bool :=
  match cs with
  | [] => true
  | f :: _ => active f
  end.

Definition open_group (cond : bool) (cs : list frame) : list frame :=
  Frame (is_active cs && cond) (is_active cs) false :: cs.

Section Lines.

(** How [#include "name"] is carried out in a given macro state. *)
Variable incl : string -> macros -> result.

(** Process the remaining lines of one file.  [cs] is the stack of
    conditional groups opened in this file and not yet closed. *)
Fixpoint pp_lines (ls : list line) (cs : list frame) (st : macros)
    : result :=
  match ls with
  | [] =>
      match cs with
      | [] => Ok st []
      | _ :: _ => Err UnterminatedConditional
      end
  | l :: rest =>
      match l with
      | IfDef m => pp_lines rest (open_group (defined m st) cs) st
      | IfNDef m => pp_lines rest (open_group (negb (defined m st)) cs) st
      | Else =>
          match cs with
          | [] => Err StrayElse
          | f :: cs' =>
              if seen_else f then Err StrayElse
              else pp_lines rest
                     (Frame (enclosing f && negb (active f)) (enclosing f)
                        true :: cs') st
          end
      | EndIf =>
          match cs with
          | [] => Err StrayEndif
          | _ :: cs' => pp_lines rest cs' st
          end
      | Blank => pp_lines rest cs st
      | Define m body =>
          if is_active cs then pp_lines rest cs (<[m := body]> st)
          else pp_lines rest cs st
      | Undef m =>
          if is_active cs then pp_lines rest cs (delete m st)
          else pp_lines rest cs st
      | Include name =>
          if is_active cs then and_then (incl name st) (pp_lines rest cs)
          else pp_lines rest cs st
      | Text toks =>
          if is_active cs
          then emit [expand_line st toks] (pp_lines rest cs st)
          else pp_lines rest cs st
      end
  end.

(** Where the preprocessor stands part-way through a file: the open
    conditional groups, the macro table and the text emitted so far. *)
Inductive progress : Type :=
  | At (cs : list frame) (st : macros) (out : output)
  | Stopped (e : pp_error).

Definition emitted (out : output) (p : progress) : progress :=
  match p with
  | At cs st out' => At cs st (out ++ out')
  | Stopped e => Stopped e
  end.

(** Process the lines [ls] as the beginning of a file: line for line what
    [pp_lines] does, without the test made at the end of a file. *)
Fixpoint pp_prefix (ls : list line) (cs : list frame) (st : macros)
    : progress :=
  match ls with
  | [] => At cs st []
  | l :: rest =>
      match l with
      | IfDef m => pp_prefix rest (open_group (defined m st) cs) st
      | IfNDef m => pp_prefix rest (open_group (negb (defined m st)) cs) st
      | Else =>
          match cs with
          | [] => Stopped StrayElse
          | f :: cs' =>
              if seen_else f then Stopped StrayElse
              else pp_prefix rest
                     (Frame (enclosing f && negb (active f)) (enclosing f)
                        true :: cs') st
          end
      | EndIf =>
          match cs with
          | [] => Stopped StrayEndif
          | _ :: cs' => pp_prefix rest cs' st
          end
      | Blank => pp_prefix rest cs st
      | Define m body =>
          if is_active cs then pp_prefix rest cs (<[m := body]> st)
          else pp_prefix rest cs st
      | Undef m =>
          if is_active cs then pp_prefix rest cs (delete m st)
          else pp_prefix rest cs st
      | Include name =>
          if is_active cs
          then match incl name st with
               | Ok st1 out1 => emitted out1 (pp_prefix rest cs st1)
               | Err e => Stopped e
               end
          else pp_prefix rest cs st
      | Text toks =>
          if is_active cs
          then emitted [expand_line st toks] (pp_prefix rest cs st)
          else pp_prefix rest cs st
      end
  end.

End Lines.

(** The line a preprocessor puts in its output when it enters a file. *)
Definition linemarker (name : string) : list token := ["#"; "1"; name].

(** [#include] leaving a linemarker in front of what the file emits. *)
Definition marked (incl : string -> macros -> result) (name : string)
    (st : macros) : result :=
  emit [linemarker name] (incl name st).

(** [#include "name"] with [depth] further levels of nesting allowed.  The
    allowance is tested first, then the name is looked up; entering the
    file costs one level. *)
Fixpoint pp_include (depth : nat) (env : include_env) (name : string)
    (st : macros) : result :=
  match depth with
  | O => Err NestingTooDeep
  | S d =>
      match env !! name with
      | None => Err (FileNotFound name)
      | Some f => pp_lines (pp_include d env) f [] st
      end
  end.

(** Preprocess the lines [f] (a translation unit, or the body of a file
    that has been entered) with [depth] levels of inclusion available. *)
Definition pp_file (depth : nat) (env : include_env) (f : file)
    (st : macros) : result :=
  pp_lines (pp_include depth env) f [] st.

(** Syntactic views of a file. *)
Definition is_blank (l : line) : bool :=
  match l with Blank => true | _ => false end.

Definition directives (f : file) : file :=
  filter (fun l => is_blank l = false) f.

Definition undefines (g : string) (l : line) : bool :=
  match l with Undef m => bool_decide (m = g) | _ => false end.

Definition no_undef (g : string) (f : file) : Prop :=
  Forall (fun l => undefines g l = false) f.

Definition includes_of (f : file) : list string :=
  flat_map (fun l => match l with Include n => [n] | _ => [] end) f.

(** The include-guard idiom: the first directive is [#ifndef X], the second
    is [#define X], and the matching [#endif] is the last directive. *)
Definition include_guard_of (f : file) : option string :=
  match directives f with
  | IfNDef x :: Define y _ :: rest =>
      match last rest with
      | Some EndIf => if bool_decide (x = y) then Some x else None
      | _ => None
      end
  | _ => None
  end.

End Preprocessor.

(** ** The header, as it is in the source tree *)

Module Header.

Import Preprocessor.

(** The symbol of the include guard (source lines 17, 18 and 31). *)
Definition _U_CFG_APP_PLATFORM_SPECIFIC_H_ : string :=
  "_U_CFG_APP_PLATFORM_SPECIFIC_H_".

(** The one file the header brings in (source line 21). *)
Definition u_runner_h : string := "u_runner.h".

(** Short spellings used in proofs. *)
Abbreviation G := _U_CFG_APP_PLATFORM_SPECIFIC_H_ (only parsing).

(** Where the header lives below the root of the source tree. *)
Definition header_path : string :=
  "port/platform/nordic/nrf53/cfg/u_cfg_app_platform_specific.h".

(** The 33 lines of the file, in order.  A line that holds only a comment,
    or part of one, is [Blank] once comments have been replaced by white
    space; the comment after [#endif] on line 31 goes the same way. *)
Definition u_cfg_app_platform_specific_h : file :=
  [ Blank;  (*  1  licence comment opens                               *)
    Blank;  (*  2  Copyright 2020 u-blox Ltd                           *)
    Blank;  (*  3                                                      *)
    Blank;  (*  4  Licensed under the Apache License, Version 2.0      *)
    Blank;  (*  5  you may not use this file except in compliance      *)
    Blank;  (*  6  You may obtain a copy of the License at             *)
    Blank;  (*  7                                                      *)
    Blank;  (*  8  http://www.apache.org/licenses/LICENSE-2.0          *)
    Blank;  (*  9                                                      *)
    Blank;  (* 10  Unless required by applicable law                   *)
    Blank;  (* 11  distributed under the License                       *)
    Blank;  (* 12  WITHOUT WARRANTIES OR CONDITIONS OF ANY KIND        *)
    Blank;  (* 13  See the License for the specific language           *)
    Blank;  (* 14  limitations under the License.                      *)
    Blank;  (* 15  licence comment closes                              *)
    Blank;  (* 16  empty                                               *)
    IfNDef _U_CFG_APP_PLATFORM_SPECIFIC_H_;      (* 17  #ifndef        *)
    Define _U_CFG_APP_PLATFORM_SPECIFIC_H_ [];   (* 18  #define        *)
    Blank;  (* 19  empty                                               *)
    Blank;  (* 20  comment: Only bring in #includes specifically
                   related to running applications.                    *)
    Include u_runner_h;                          (* 21  #include       *)
    Blank;  (* 22  empty                                               *)
    Blank;  (* 23  doc comment opens: @file                            *)
    Blank;  (* 24  @brief This header file contains configuration      *)
    Blank;  (* 25  an NRF5340 platform that is fed in at application   *)
    Blank;  (* 26  override these values as necessary                  *)
    Blank;  (* 27  doc comment closes                                  *)
    Blank;  (* 28  empty                                               *)
    Blank;  (* 29  empty                                               *)
    Blank;  (* 30  empty                                               *)
    EndIf;                                       (* 31  #endif         *)
    Blank;  (* 32  empty                                               *)
    Blank   (* 33  comment: End of file                                *)
  ].

Abbreviation header := u_cfg_app_platform_specific_h (only parsing).

(** The source tree restricted to the unit under verification. *)
Definition source_tree : include_env :=
  {[ header_path := u_cfg_app_platform_specific_h ]}.

(** The content the guard protects: lines 18 and 21. *)
Definition guarded_content : file :=
  [ Define _U_CFG_APP_PLATFORM_SPECIFIC_H_ []; Include u_runner_h ].

(** Environment assumption of the include-guard idiom: the guard symbol
    belongs to this header, no file on the include path undefines it. *)
Definition guard_respected (env : include_env) : Prop :=
  map_Forall (fun _ f => no_undef _U_CFG_APP_PLATFORM_SPECIFIC_H_ f) env.

(** The include environment with the header cut out: the name [h] resolves
    to an empty file instead. *)
Definition cut (h : string) (env : include_env) : include_env :=
  <[h := []]> env.

(** A line that leaves the guard what line 18 makes it, an object-like
    macro with an empty replacement list: it neither undefines the symbol
    nor defines it with anything else. *)
Definition keeps_guard_empty (l : line) : bool :=
  match l with
  | Undef m => negb (bool_decide (m = _U_CFG_APP_PLATFORM_SPECIFIC_H_))
  | Define m body =>
      negb (bool_decide (m = _U_CFG_APP_PLATFORM_SPECIFIC_H_))
      || bool_decide (body = [])
  | _ => true
  end.

Definition guard_untouched (env : include_env) : Prop :=
  map_Forall (fun _ f => Forall (fun l => keeps_guard_empty l = true) f) env.

(** A text line with every occurrence of the guard symbol removed. *)
Definition without_guard (toks : list token) : list token :=
  filter (fun t => t <> _U_CFG_APP_PLATFORM_SPECIFIC_H_) toks.

(** A set of names that holds, with every file of [env] it names, the
    names that file includes. *)
Definition closed_under_inclusion (names : gset string) (env : include_env)
    : Prop :=
  forall n f m,
    n ∈ names -> env !! n = Some f -> m ∈ includes_of f -> m ∈ names.

(** Two include environments resolve the names of [names] alike. *)
Definition agree_on (names : gset string) (env1 env2 : include_env) : Prop :=
  forall n, n ∈ names -> env1 !! n = env2 !! n.

(** A translation unit seen from this header: its macro table and the
    text emitted so far, linemarkers of the header's own inclusions
    included. *)
Record tu_state : Type := TuState {
  tu_macros : macros;
  tu_output : output
}.

(** The guarded content has been emitted when the output shows that
    [u_runner.h] was entered. *)
Definition content_emitted (out : output) : bool :=
  bool_decide (linemarker u_runner_h ∈ out).

(** One inclusion of the header in a translation unit. *)
Definition include_step (depth : nat) (env : include_env) (s : tu_state)
    : option tu_state :=
  match pp_lines (marked (pp_include depth env))
          u_cfg_app_platform_specific_h [] (tu_macros s) with
  | Ok st' out' => Some (TuState st' (tu_output s ++ out'))
  | Err _ => None
  end.

(** "Guard defined implies content already emitted". *)
Definition guard_invariant (s : tu_state) : Prop :=
  defined _U_CFG_APP_PLATFORM_SPECIFIC_H_ (tu_macros s) = true ->
  content_emitted (tu_output s) = true.

End Header.

(** ** Concrete include-path environments

    Small environments on which the statements below are exercised.  The
    contents given to [u_runner.h] here are stand-ins: the real file is not
    part of the unit. *)

Module Scenarios.

Import Preprocessor Header.

(** A file holding one declaration. *)
Definition one_declaration : file :=
  [ Text ["void"; "run"; "("; "void"; ")"; ";"] ].

(** The header and a self-contained [u_runner.h]. *)
Definition env_plain : include_env :=
  {[ header_path := u_cfg_app_platform_specific_h;
     u_runner_h := one_declaration ]}.

(** Only the header: [u_runner.h] cannot be located. *)
Definition env_no_runner : include_env := source_tree.

(** [u_runner.h] is there, but a header it needs is not. *)
Definition env_missing_dependency : include_env :=
  {[ header_path := u_cfg_app_platform_specific_h;
     u_runner_h := [ Include "u_port.h"; Text ["int"; "x"; ";"] ] ]}.

(** [u_runner.h] reaches the header again through [mid.h]. *)
Definition env_cyclic : include_env :=
  {[ header_path := u_cfg_app_platform_specific_h;
     u_runner_h := [ Text ["int"; "a"; ";"]; Include "mid.h";
                     Text ["int"; "b"; ";"] ];
     "mid.h" := [ Include header_path; Text ["int"; "m"; ";"] ] ]}.

(** For comparison only, not a file of the source tree: the header's four
    directives with the definition of the guard moved after the
    inclusion, in an environment where [u_runner.h] includes it back. *)
Definition late_guard_header : file :=
  [ IfNDef _U_CFG_APP_PLATFORM_SPECIFIC_H_;
    Include u_runner_h;
    Define _U_CFG_APP_PLATFORM_SPECIFIC_H_ [];
    EndIf ].

Definition env_late_guard : include_env :=
  {[ header_path := late_guard_header;
     u_runner_h := [ Include header_path ] ]}.

(** [u_runner.h] undefines the guard and includes the header back. *)
Definition env_undef_cycle : include_env :=
  {[ header_path := u_cfg_app_platform_specific_h;
     u_runner_h := [ Undef _U_CFG_APP_PLATFORM_SPECIFIC_H_;
                     Include header_path ] ]}.

(** Two environments that resolve [u_runner.h] to the same contents and
    differ in a file that [u_runner.h] includes. *)
Definition env_dependency_a : include_env :=
  {[ u_runner_h := [ Include "u_port.h" ];
     "u_port.h" := [ Text ["int"; "a"; ";"] ] ]}.

Definition env_dependency_b : include_env :=
  {[ u_runner_h := [ Include "u_port.h" ];
     "u_port.h" := [ Text ["int"; "b"; ";"] ] ]}.

(** The header reachable under two names, as when a directory of the
    include path makes the short name resolve to it as well. *)
Definition env_two_names : include_env :=
  {[ header_path := u_cfg_app_platform_specific_h;
     "u_cfg_app_platform_specific.h" := u_cfg_app_platform_specific_h;
     u_runner_h := one_declaration ]}.

(** A macro table in which the guard is already defined. *)
Definition guard_predefined : macros :=
  {[ _U_CFG_APP_PLATFORM_SPECIFIC_H_ := [] ]}.

End Scenarios.

(** ** Properties of the preprocessor fragment *)

Module PreprocessorFacts.

Import Preprocessor.

Arguments defined : simpl never.
Arguments expand_line : simpl never.

Lemma emit_nil (r : result) : emit [] r = r.
Proof. destruct r; reflexivity. Qed.

Lemma and_then_ok (r : result) :
  and_then r (fun st => Ok st []) = r.
Proof.
  destruct r as [st out|e]; simpl; [|reflexivity].
  now rewrite app_nil_r.
Qed.

Lemma defined_true (m : string) (st : macros) :
  defined m st = true <-> is_Some (st !! m).
Proof.
  unfold defined. destruct (st !! m) eqn:E; split; intros H.
  - by eexists.
  - reflexivity.
  - discriminate.
  - by destruct H.
Qed.

Lemma defined_false (m : string) (st : macros) :
  defined m st = false <-> st !! m = None.
Proof.
  unfold defined. destruct (st !! m); split; intros H; done.
Qed.

Lemma defined_insert_eq (m : string) (body : list token) (st : macros) :
  defined m (<[m := body]> st) = true.
Proof. unfold defined. by rewrite lookup_insert_eq. Qed.

Lemma defined_insert (g m : string) (body : list token) (st : macros) :
  defined g st = true -> defined g (<[m := body]> st) = true.
Proof.
  unfold defined. intros H. destruct (decide (m = g)) as [->|Hne].
  - by rewrite lookup_insert_eq.
  - by rewrite lookup_insert_ne.
Qed.

Lemma defined_delete_ne (g m : string) (st : macros) :
  m <> g -> defined g (delete m st) = defined g st.
Proof. intros Hne. unfold defined. by rewrite lookup_delete_ne. Qed.

Lemma no_undef_cons (g : string) (l : line) (f : file) :
  no_undef g (l :: f) <-> undefines g l = false /\ no_undef g f.
Proof. unfold no_undef. exact (Forall_cons _ l f). Qed.

Section Invariant.

(** A symbol [g] that no line of the files at hand undefines stays
    defined, and two ways of carrying out [#include] that agree wherever
    [g] is defined give the same preprocessing. *)
Variable g : string.
Variables incl incl' : string -> macros -> result.

Hypothesis incl_keeps :
  forall n st st' out,
    defined g st = true -> incl n st = Ok st' out -> defined g st' = true.

Hypothesis incl_agree :
  forall n st, defined g st = true -> incl n st = incl' n st.

Lemma pp_lines_keeps (ls : list line) :
  forall cs st st' out,
    no_undef g ls -> defined g st = true ->
    pp_lines incl ls cs st = Ok st' out -> defined g st' = true.
Proof.
  induction ls as [|l rest IH]; intros cs st st' out Hnu Hdef Hrun.
  - simpl in Hrun. destruct cs; [|discriminate].
    by injection Hrun as <- _.
  - apply no_undef_cons in Hnu as [Hl Hrest].
    destruct l; simpl in Hrun.
    + eauto.
    + eauto.
    + eauto.
    + destruct cs as [|f cs']; [discriminate|].
      destruct (seen_else f); [discriminate|]. eauto.
    + destruct cs as [|f cs']; [discriminate|]. eauto.
    + destruct (is_active cs); eauto using defined_insert.
    + simpl in Hl. apply bool_decide_eq_false in Hl.
      destruct (is_active cs); [|by eauto].
      eapply IH; [done| |exact Hrun].
      by rewrite defined_delete_ne.
    + destruct (is_active cs); [|by eauto].
      destruct (incl name st) as [st1 out1|e] eqn:E; [|discriminate].
      simpl in Hrun.
      destruct (pp_lines incl rest cs st1) as [st2 out2|e] eqn:E2;
        [|discriminate].
      simpl in Hrun. injection Hrun as <- _.
      eapply IH; [done| |exact E2]. eauto.
    + destruct (is_active cs); [|by eauto].
      destruct (pp_lines incl rest cs st) as [st2 out2|e] eqn:E2;
        [|discriminate].
      simpl in Hrun. injection Hrun as <- _. eauto.
Qed.

Lemma pp_lines_agree (ls : list line) :
  forall cs st,
    no_undef g ls -> defined g st = true ->
    pp_lines incl ls cs st = pp_lines incl' ls cs st.
Proof.
  induction ls as [|l rest IH]; intros cs st Hnu Hdef; [reflexivity|].
  apply no_undef_cons in Hnu as [Hl Hrest].
  destruct l; simpl.
  - eauto.
  - eauto.
  - eauto.
  - destruct cs as [|f cs']; [reflexivity|].
    destruct (seen_else f); eauto.
  - destruct cs as [|f cs']; eauto.
  - destruct (is_active cs); eauto using defined_insert.
  - simpl in Hl. apply bool_decide_eq_false in Hl.
    destruct (is_active cs); [|by eauto].
    apply IH; [done|]. by rewrite defined_delete_ne.
  - destruct (is_active cs); [|by eauto].
    rewrite <- incl_agree by done.
    destruct (incl name st) as [st1 out1|e] eqn:E; [|reflexivity].
    simpl. f_equal. eauto.
  - destruct (is_active cs); [|by eauto].
    f_equal. eauto.
Qed.

End Invariant.

Lemma emit_app (out1 out2 : output) (r : result) :
  emit (out1 ++ out2) r = emit out1 (emit out2 r).
Proof. destruct r; simpl; [|reflexivity]. by rewrite app_assoc. Qed.

Section Prefix.

(** A file is processed by processing a beginning of it and going on from
    where that stands. *)
Variable incl : string -> macros -> result.

Lemma pp_lines_app (pre : list line) :
  forall rest cs st,
    pp_lines incl (pre ++ rest) cs st
    = match pp_prefix incl pre cs st with
      | At cs' st' out => emit out (pp_lines incl rest cs' st')
      | Stopped e => Err e
      end.
Proof.
  induction pre as [|l pre IH]; intros rest cs st; simpl.
  - by rewrite emit_nil.
  - destruct l; try (by rewrite IH).
    + destruct cs as [|f cs']; [reflexivity|].
      destruct (seen_else f); [reflexivity|]. by rewrite IH.
    + destruct cs as [|f cs']; [reflexivity|]. by rewrite IH.
    + destruct (is_active cs); by rewrite IH.
    + destruct (is_active cs); by rewrite IH.
    + destruct (is_active cs); [|by rewrite IH].
      destruct (incl name st) as [st1 out1|e]; [|reflexivity].
      simpl. rewrite IH.
      destruct (pp_prefix incl pre cs st1); simpl; [|reflexivity].
      by rewrite emit_app.
    + destruct (is_active cs); [|by rewrite IH].
      rewrite IH.
      destruct (pp_prefix incl pre cs st) as [cs' st' out|e]; simpl;
        [|reflexivity].
      by destruct (pp_lines incl rest cs' st').
Qed.

(** Text lines are emitted, macro-replaced, in the order they stand. *)
Lemma text_lines_then (ls : list (list token)) (rest : list line)
    (cs : list frame) (st : macros) :
  is_active cs = true ->
  pp_lines incl ((Text <$> ls) ++ rest) cs st
  = emit (expand_line st <$> ls) (pp_lines incl rest cs st).
Proof.
  intros Hact. induction ls as [|toks ls IH].
  - simpl. by rewrite emit_nil.
  - rewrite !fmap_cons. cbn [app pp_lines].
    rewrite Hact, IH. by destruct (pp_lines incl rest cs st).
Qed.

Lemma text_lines_only (ls : list (list token)) (st : macros) :
  pp_lines incl (Text <$> ls) [] st = Ok st (expand_line st <$> ls).
Proof.
  rewrite <- (app_nil_r (Text <$> ls)), text_lines_then by reflexivity.
  simpl. by rewrite app_nil_r.
Qed.

End Prefix.

(** Only the files a file names matter to how it is processed. *)
Lemma pp_lines_ext (incl incl' : string -> macros -> result)
    (ls : list line) :
  (forall n st, n ∈ includes_of ls -> incl n st = incl' n st) ->
  forall cs st, pp_lines incl ls cs st = pp_lines incl' ls cs st.
Proof.
  induction ls as [|l rest IH]; intros Hsame cs st; [reflexivity|].
  assert (Hrest : forall n st', n ∈ includes_of rest ->
            incl n st' = incl' n st').
  { intros n st' Hn. apply Hsame. unfold includes_of. simpl.
    apply elem_of_app. by right. }
  destruct l; simpl; eauto.
  - destruct cs as [|f cs']; [reflexivity|].
    destruct (seen_else f); eauto.
  - destruct cs as [|f cs']; eauto.
  - destruct (is_active cs); eauto.
  - destruct (is_active cs); eauto.
  - destruct (is_active cs); [|by eauto].
    rewrite <- (Hsame name st) by (unfold includes_of; simpl; constructor).
    destruct (incl name st); simpl; [|reflexivity]. f_equal. eauto.
  - destruct (is_active cs); [|by eauto]. f_equal. eauto.
Qed.

(** With a level of nesting left, a missing file is reported as such. *)
Lemma pp_include_missing (env : include_env) (d : nat) (n : string)
    (st : macros) :
  env !! n = None -> pp_include (S d) env n st = Err (FileNotFound n).
Proof. intros Hn. simpl. by rewrite Hn. Qed.

(** With no level left, nothing is looked up. *)
Lemma pp_include_exhausted (env : include_env) (n : string) (st : macros) :
  pp_include 0 env n st = Err NestingTooDeep.
Proof. reflexivity. Qed.

Lemma pp_include_found (env : include_env) (d : nat) (n : string) (f : file)
    (st : macros) :
  env !! n = Some f -> pp_include (S d) env n st = pp_file d env f st.
Proof. intros Hn. simpl. by rewrite Hn. Qed.

End PreprocessorFacts.

(** ** What the header does *)

Module HeaderFacts.

Import Preprocessor PreprocessorFacts Header.

(** With the guard defined, every line of the header is skipped. *)
Lemma header_when_guarded (incl : string -> macros -> result) (st : macros) :
  defined G st = true ->
  pp_lines incl header [] st = Ok st [].
Proof.
  intros Hdef. unfold u_cfg_app_platform_specific_h. simpl.
  unfold open_group. rewrite Hdef. reflexivity.
Qed.

(** With the guard not defined, the header defines it and then hands over
    to [u_runner.h]; nothing else is done. *)
Lemma header_when_fresh (incl : string -> macros -> result) (st : macros) :
  defined G st = false ->
  pp_lines incl header [] st = incl u_runner_h (<[G := []]> st).
Proof.
  intros Hdef. unfold u_cfg_app_platform_specific_h. simpl.
  unfold open_group. rewrite Hdef. simpl.
  apply and_then_ok.
Qed.

Lemma content_alone (incl : string -> macros -> result) (st : macros) :
  pp_lines incl guarded_content [] st = incl u_runner_h (<[G := []]> st).
Proof. unfold guarded_content. simpl. apply and_then_ok. Qed.

Section Anywhere.

(** An inclusion of the header met at any line of a file, under any stack
    of open conditionals. *)
Variable env : include_env.
Variable h : string.
Hypothesis env_header : env !! h = Some u_cfg_app_platform_specific_h.

Lemma inclusion_when_guarded (d : nat) (rest : list line) (cs : list frame)
    (st : macros) :
  defined G st = true ->
  pp_lines (pp_include (S d) env) (Include h :: rest) cs st
  = pp_lines (pp_include (S d) env) rest cs st.
Proof.
  intros Hdef. simpl. destruct (is_active cs); [|reflexivity].
  rewrite env_header, header_when_guarded by done. simpl. apply emit_nil.
Qed.

Lemma inclusion_when_fresh (d : nat) (f : file) (rest : list line)
    (cs : list frame) (st : macros) :
  env !! u_runner_h = Some f ->
  is_active cs = true -> defined G st = false ->
  pp_lines (pp_include (S (S d)) env) (Include h :: rest) cs st
  = and_then (pp_file d env f (<[G := []]> st))
      (pp_lines (pp_include (S (S d)) env) rest cs).
Proof.
  intros Hf Hact Hfresh.
  change (pp_lines (pp_include (S (S d)) env) (Include h :: rest) cs st)
    with (if is_active cs
          then and_then (pp_include (S (S d)) env h st)
                 (pp_lines (pp_include (S (S d)) env) rest cs)
          else pp_lines (pp_include (S (S d)) env) rest cs st).
  rewrite Hact, (pp_include_found _ _ _ _ _ env_header). unfold pp_file at 1.
  by rewrite header_when_fresh, (pp_include_found _ _ _ _ _ Hf).
Qed.

(** Any number of inclusions in a row, met with the guard defined. *)
Lemma inclusions_when_guarded (d n : nat) (rest : list line)
    (cs : list frame) (st : macros) :
  defined G st = true ->
  pp_lines (pp_include (S d) env) (replicate n (Include h) ++ rest) cs st
  = pp_lines (pp_include (S d) env) rest cs st.
Proof.
  intros Hdef. induction n as [|n IH]; [reflexivity|].
  change (replicate (S n) (Include h) ++ rest)
    with (Include h :: (replicate n (Include h) ++ rest)).
  by rewrite inclusion_when_guarded.
Qed.

End Anywhere.

Section Environment.

Variable env : include_env.
Hypothesis env_respects : guard_respected env.

Lemma respected_file (n : string) (f : file) :
  env !! n = Some f -> no_undef G f.
Proof. intros Hn. exact (env_respects n f Hn). Qed.

(** No inclusion leaves the guard undefined once it is defined. *)
Lemma pp_include_keeps_guard (depth : nat) :
  forall n st st' out,
    defined G st = true ->
    pp_include depth env n st = Ok st' out ->
    defined G st' = true.
Proof.
  induction depth as [|d IH]; intros n st st' out Hdef Hrun; simpl in Hrun;
    [discriminate|].
  destruct (env !! n) as [f|] eqn:En; [|discriminate].
  eapply (pp_lines_keeps G (pp_include d env) IH f);
    eauto using respected_file.
Qed.

Lemma pp_file_keeps_guard (depth : nat) (tu : file) (st st' : macros)
    (out : output) :
  no_undef G tu -> defined G st = true ->
  pp_file depth env tu st = Ok st' out -> defined G st' = true.
Proof.
  intros Htu Hdef Hrun.
  eapply (pp_lines_keeps G (pp_include depth env)); eauto.
  intros. eapply pp_include_keeps_guard; eauto.
Qed.

Variable h : string.
Hypothesis env_header : env !! h = Some u_cfg_app_platform_specific_h.

(** A successful inclusion of the header always ends with the guard
    defined. *)
Lemma guard_defined_after (depth : nat) (st st' : macros) (out : output) :
  pp_include depth env h st = Ok st' out -> defined G st' = true.
Proof.
  destruct depth as [|d]; simpl; [discriminate|]. rewrite env_header.
  destruct (defined G st) eqn:Hdef.
  - rewrite header_when_guarded by done. by intros [= <- _].
  - rewrite header_when_fresh by done.
    apply pp_include_keeps_guard, defined_insert_eq.
Qed.

(** Including the header while the guard is defined does nothing, and
    needs a single level of nesting. *)
Lemma reinclusion_is_void (d : nat) (st : macros) :
  defined G st = true -> pp_include (S d) env h st = Ok st [].
Proof.
  intros Hdef. simpl. rewrite env_header. by apply header_when_guarded.
Qed.

Lemma guard_respected_cut : guard_respected (cut h env).
Proof.
  unfold cut. apply map_Forall_insert_2; [|done].
  unfold no_undef. constructor.
Qed.

(** While the guard is defined the header cannot be told apart from an
    empty file. *)
Lemma pp_include_cut (depth : nat) :
  forall n st,
    defined G st = true ->
    pp_include depth env n st = pp_include depth (cut h env) n st.
Proof.
  induction depth as [|d IH]; intros n st Hdef; simpl; [reflexivity|].
  unfold cut. destruct (decide (h = n)) as [<-|Hne].
  - rewrite env_header, lookup_insert_eq.
    by rewrite header_when_guarded.
  - rewrite lookup_insert_ne by done.
    destruct (env !! n) as [f|] eqn:En; [|reflexivity].
    apply (pp_lines_agree G);
      eauto using respected_file, pp_include_keeps_guard.
Qed.

Lemma pp_file_cut (depth : nat) (tu : file) (st : macros) :
  no_undef G tu -> defined G st = true ->
  pp_file depth env tu st = pp_file depth (cut h env) tu st.
Proof.
  intros Htu Hdef. unfold pp_file.
  apply (pp_lines_agree G);
    eauto using pp_include_keeps_guard, pp_include_cut.
Qed.

End Environment.

(** Environments that resolve alike every name reachable from a name give
    the same result for including it. *)
Lemma pp_include_agree (names : gset string) (env1 env2 : include_env) :
  closed_under_inclusion names env1 -> agree_on names env1 env2 ->
  forall depth n st,
    n ∈ names -> pp_include depth env1 n st = pp_include depth env2 n st.
Proof.
  intros Hclosed Hagree.
  induction depth as [|d IH]; intros n st Hn; simpl; [reflexivity|].
  rewrite <- (Hagree n Hn).
  destruct (env1 !! n) as [f|] eqn:En; [|reflexivity].
  apply pp_lines_ext. intros m st' Hm. apply IH. eauto.
Qed.

End HeaderFacts.

(** ** The include guard: the properties claimed of the header *)

Module IncludeGuard.

Import Preprocessor PreprocessorFacts Header HeaderFacts Scenarios.

Arguments pp_include : simpl never.

(** The guard is respected by each of the sample environments. *)
Ltac by_computation :=
  refine (bool_decide_unpack _ _); vm_compute; exact I.

Lemma env_plain_respects : guard_respected env_plain.
Proof. unfold guard_respected, no_undef. by_computation. Qed.

Lemma env_cyclic_respects : guard_respected env_cyclic.
Proof. unfold guard_respected, no_undef. by_computation. Qed.

(** C1, as stated, fails.  A translation unit that undefines the guard
    between two inclusions gets the content of the header twice, and one in
    which the guard is defined beforehand does not get it at all. *)
Lemma guard_left_alone_is_needed :
  pp_file 2 env_plain
    [ Include header_path;
      Undef _U_CFG_APP_PLATFORM_SPECIFIC_H_;
      Include header_path ] ∅
  = Ok (<[_U_CFG_APP_PLATFORM_SPECIFIC_H_ := []]> ∅)
      [ ["void"; "run"; "("; "void"; ")"; ";"];
        ["void"; "run"; "("; "void"; ")"; ";"] ]
  /\ pp_file 2 env_plain [ Include header_path; Include header_path ]
       guard_predefined
     = Ok guard_predefined [].
Proof. split; vm_compute; reflexivity. Qed.

(** C1, amended -- include-guard idempotence.  Let [u_runner.h] resolve
    to [f].  (1) Wherever in a translation unit the header is included
    [n + 1] times in a row, at a point where text is being processed and
    the guard is not defined, and [u_runner.h] leaves the guard defined,
    the content is emitted exactly once: the unit's output up to there is
    what came before followed by one copy of the output of [f], and the
    unit goes on in the macro table [f] ends in.  (2) Wherever the header
    is included with the guard defined, the inclusion expands to nothing:
    the unit goes on in the same macro table, the same open conditionals
    and with nothing emitted.  (3) When [f] holds text lines only, [n + 1]
    inclusions emit each line of [f] once, macro-replaced, and define the
    guard. *)
Theorem include_guard_idempotent (env : include_env) (h : string) (f : file)
    (d : nat)
    (Hh : env !! h = Some u_cfg_app_platform_specific_h)
    (Hf : env !! u_runner_h = Some f) :
  (forall pre cs st0 st out0 st1 out1 n rest,
      pp_prefix (pp_include (S (S d)) env) pre [] st0 = At cs st out0 ->
      is_active cs = true ->
      defined _U_CFG_APP_PLATFORM_SPECIFIC_H_ st = false ->
      pp_file d env f (<[_U_CFG_APP_PLATFORM_SPECIFIC_H_ := []]> st)
      = Ok st1 out1 ->
      defined _U_CFG_APP_PLATFORM_SPECIFIC_H_ st1 = true ->
      pp_file (S (S d)) env
        (pre ++ replicate (S n) (Include h) ++ rest) st0
      = emit (out0 ++ out1)
          (pp_lines (pp_include (S (S d)) env) rest cs st1))
  /\ (forall pre cs st0 st out0 rest,
        pp_prefix (pp_include (S (S d)) env) pre [] st0 = At cs st out0 ->
        defined _U_CFG_APP_PLATFORM_SPECIFIC_H_ st = true ->
        pp_file (S (S d)) env (pre ++ Include h :: rest) st0
        = emit out0 (pp_lines (pp_include (S (S d)) env) rest cs st))
  /\ (forall ls n st,
        f = Text <$> ls ->
        defined _U_CFG_APP_PLATFORM_SPECIFIC_H_ st = false ->
        pp_file (S (S d)) env (replicate (S n) (Include h)) st
        = Ok (<[_U_CFG_APP_PLATFORM_SPECIFIC_H_ := []]> st)
            (expand_line (<[_U_CFG_APP_PLATFORM_SPECIFIC_H_ := []]> st)
               <$> ls)).
Proof.
  split; [|split].
  - intros pre cs st0 st out0 st1 out1 n rest Hpre Hact Hfresh Hrun Hkept.
    unfold pp_file at 1. rewrite pp_lines_app, Hpre.
    change (replicate (S n) (Include h) ++ rest)
      with (Include h :: (replicate n (Include h) ++ rest)).
    rewrite (inclusion_when_fresh env h Hh d f _ cs st Hf Hact Hfresh), Hrun.
    cbn [and_then].
    rewrite (inclusions_when_guarded env h Hh (S d) n rest cs st1 Hkept).
    by rewrite emit_app.
  - intros pre cs st0 st out0 rest Hpre Hdef.
    unfold pp_file. rewrite pp_lines_app, Hpre.
    by rewrite (inclusion_when_guarded env h Hh (S d) rest cs st Hdef).
  - intros ls n st -> Hfresh. unfold pp_file at 1.
    rewrite <- (app_nil_r (replicate (S n) (Include h))).
    change (replicate (S n) (Include h) ++ [])
      with (Include h :: (replicate n (Include h) ++ [])).
    rewrite (inclusion_when_fresh env h Hh d _ _ [] st Hf eq_refl Hfresh).
    unfold pp_file. rewrite text_lines_only. cbn [and_then].
    rewrite (inclusions_when_guarded env h Hh (S d) n [] []
               _ (defined_insert_eq _ _ _)).
    simpl. by rewrite app_nil_r.
Qed.

Lemma include_guard_idempotent_witness :
  pp_file 2 env_plain
    ([ Text ["int"; "k"; ";"] ]
     ++ replicate 3 (Include header_path)
     ++ [ Text ["int"; "z"; ";"] ]) ∅
  = Ok (<[_U_CFG_APP_PLATFORM_SPECIFIC_H_ := []]> ∅)
      [ ["int"; "k"; ";"];
        ["void"; "run"; "("; "void"; ")"; ";"];
        ["int"; "z"; ";"] ].
Proof.
  etrans.
  - apply (proj1 (include_guard_idempotent env_plain header_path
                    one_declaration 0 eq_refl eq_refl)
             [ Text ["int"; "k"; ";"] ] [] ∅ ∅ [ ["int"; "k"; ";"] ]
             (<[_U_CFG_APP_PLATFORM_SPECIFIC_H_ := []]> ∅)
             [ ["void"; "run"; "("; "void"; ")"; ";"] ] 2
             [ Text ["int"; "z"; ";"] ]);
      vm_compute; reflexivity.
  - vm_compute. reflexivity.
Defined.

(** C2, as stated, fails.  With the guard already defined the header is
    preprocessed successfully although [u_runner.h] cannot be located; and
    with [u_runner.h] present it still fails when a file that [u_runner.h]
    includes is missing. *)
Lemma runner_presence_does_not_decide :
  (env_no_runner !! u_runner_h = None
   /\ pp_file 8 env_no_runner u_cfg_app_platform_specific_h guard_predefined
      = Ok guard_predefined [])
  /\ (is_Some (env_missing_dependency !! u_runner_h)
      /\ pp_file 8 env_missing_dependency u_cfg_app_platform_specific_h ∅
         = Err (FileNotFound "u_port.h")).
Proof.
  split; split.
  - reflexivity.
  - apply header_when_guarded. reflexivity.
  - by eexists.
  - unfold pp_file. rewrite header_when_fresh by reflexivity.
    reflexivity.
Qed.

(** C2, amended -- the failure modes of the header.  With the guard
    defined the header succeeds and resolves nothing.  With the guard not
    defined: with no level of nesting left it fails with the nesting
    error, whether or not [u_runner.h] can be located; while a level is
    left, it fails with file-not-found if [u_runner.h] cannot be located,
    and if it resolves to [f] the header's result is the result of
    preprocessing [f] with the guard defined, so the header succeeds
    exactly when [u_runner.h] resolves and its contents preprocess
    successfully.  The header's own lines add no failure. *)
Theorem header_fails_only_through_runner (env : include_env) (depth : nat)
    (st : macros) :
  (defined _U_CFG_APP_PLATFORM_SPECIFIC_H_ st = true ->
   pp_file depth env u_cfg_app_platform_specific_h st = Ok st [])
  /\ (defined _U_CFG_APP_PLATFORM_SPECIFIC_H_ st = false ->
      pp_file 0 env u_cfg_app_platform_specific_h st = Err NestingTooDeep
      /\ (env !! u_runner_h = None ->
          pp_file (S depth) env u_cfg_app_platform_specific_h st
          = Err (FileNotFound u_runner_h))
      /\ (forall f,
            env !! u_runner_h = Some f ->
            pp_file (S depth) env u_cfg_app_platform_specific_h st
            = pp_file depth env f
                (<[_U_CFG_APP_PLATFORM_SPECIFIC_H_ := []]> st))
      /\ (is_ok (pp_file (S depth) env u_cfg_app_platform_specific_h st)
          <-> exists f,
                env !! u_runner_h = Some f
                /\ is_ok (pp_file depth env f
                            (<[_U_CFG_APP_PLATFORM_SPECIFIC_H_ := []]> st)))).
Proof.
  split; [apply header_when_guarded|].
  intros Hfresh.
  assert (Hrun : forall d,
            pp_file d env header st = pp_include d env u_runner_h (<[G := []]> st)).
  { intros d. unfold pp_file. by apply header_when_fresh. }
  rewrite !Hrun.
  split; [apply pp_include_exhausted|].
  split; [apply pp_include_missing|].
  split; [intros f Hf; by apply pp_include_found|].
  destruct (env !! u_runner_h) as [f|] eqn:Hf.
  - rewrite (pp_include_found _ _ _ _ _ Hf). split.
    + intros Hok. by exists f.
    + by intros (f' & [= <-] & Hok).
  - rewrite pp_include_missing by done. split; [intros []|].
    by intros (f' & [=] & _).
Qed.

Lemma header_fails_only_through_runner_witness :
  pp_file 2 env_plain u_cfg_app_platform_specific_h ∅
  = pp_file 1 env_plain one_declaration
      (<[_U_CFG_APP_PLATFORM_SPECIFIC_H_ := []]> ∅).
Proof.
  exact (proj1 (proj2 (proj2 (proj2
           (header_fails_only_through_runner env_plain 1 ∅) eq_refl)))
           one_declaration eq_refl).
Defined.

(** C3, as stated, fails.  That the content has not been emitted yet is
    not what the header tests: with the guard defined by other means a
    unit whose first line includes the header gets nothing of
    [u_runner.h]. *)
Lemma not_emitted_is_not_enough :
  pp_prefix (pp_include 2 env_plain) [] [] guard_predefined
  = At [] guard_predefined []
  /\ pp_file 2 env_plain [ Include header_path ] guard_predefined
     = Ok guard_predefined [].
Proof. split; vm_compute; reflexivity. Qed.

(** C3, amended -- availability of [u_runner.h].  A translation unit
    includes the header at any of its lines, at a point where text is
    being processed and the guard is not defined, and [u_runner.h]
    resolves to [f].  If [f] preprocesses (with the guard defined) to the
    text [out1] and the macro table [st1], the unit's output is what came
    before, then [out1], then the output of the rest of the unit, and the
    rest is preprocessed in [st1]: the declarations and macros of
    [u_runner.h] are available to it.  When [f] holds text lines only,
    [out1] is those lines, macro-replaced. *)
Theorem runner_contents_available (env : include_env) (h : string) (f : file)
    (d : nat) (pre rest : file) (cs : list frame)
    (st0 st st1 st2 : macros) (out0 out1 out2 : output) :
  env !! h = Some u_cfg_app_platform_specific_h ->
  env !! u_runner_h = Some f ->
  pp_prefix (pp_include (S (S d)) env) pre [] st0 = At cs st out0 ->
  is_active cs = true ->
  defined _U_CFG_APP_PLATFORM_SPECIFIC_H_ st = false ->
  pp_file d env f (<[_U_CFG_APP_PLATFORM_SPECIFIC_H_ := []]> st)
  = Ok st1 out1 ->
  pp_lines (pp_include (S (S d)) env) rest cs st1 = Ok st2 out2 ->
  pp_file (S (S d)) env (pre ++ Include h :: rest) st0
  = Ok st2 (out0 ++ out1 ++ out2)
  /\ (forall ls,
        f = Text <$> ls ->
        st1 = <[_U_CFG_APP_PLATFORM_SPECIFIC_H_ := []]> st
        /\ out1
           = expand_line (<[_U_CFG_APP_PLATFORM_SPECIFIC_H_ := []]> st)
               <$> ls).
Proof.
  intros Hh Hf Hpre Hact Hfresh Hrun Hrest. split.
  - unfold pp_file at 1. rewrite pp_lines_app, Hpre.
    rewrite (inclusion_when_fresh env h Hh d f _ cs st Hf Hact Hfresh), Hrun.
    cbn [and_then]. by rewrite Hrest.
  - intros ls ->. unfold pp_file in Hrun. rewrite text_lines_only in Hrun.
    by injection Hrun as <- <-.
Qed.

Lemma runner_contents_available_witness :
  pp_file 2 env_plain
    ([ Text ["int"; "k"; ";"] ]
     ++ Include header_path :: [ Text ["run"; "("; ")"; ";"] ]) ∅
  = Ok (<[_U_CFG_APP_PLATFORM_SPECIFIC_H_ := []]> ∅)
      ([ ["int"; "k"; ";"] ]
       ++ [ ["void"; "run"; "("; "void"; ")"; ";"] ]
       ++ [ ["run"; "("; ")"; ";"] ]).
Proof.
  refine (proj1 (runner_contents_available env_plain header_path
                   one_declaration 0 [ Text ["int"; "k"; ";"] ]
                   [ Text ["run"; "("; ")"; ";"] ] [] ∅ ∅
                   (<[_U_CFG_APP_PLATFORM_SPECIFIC_H_ := []]> ∅)
                   (<[_U_CFG_APP_PLATFORM_SPECIFIC_H_ := []]> ∅)
                   [ ["int"; "k"; ";"] ]
                   [ ["void"; "run"; "("; "void"; ")"; ";"] ]
                   [ ["run"; "("; ")"; ";"] ]
                   _ _ _ _ _ _ _));
    vm_compute; reflexivity.
Defined.

(** C4 -- frame.  The header has exactly four directives and no other
    text.  Whatever way [#include] is carried out, preprocessing the header
    either does nothing at all (guard defined) or defines the guard with an
    empty replacement list and then carries out the inclusion of
    [u_runner.h], and nothing more; in particular with an empty
    [u_runner.h] the macro table only gains the guard and no text is
    emitted. *)
Theorem header_frame :
  directives u_cfg_app_platform_specific_h
  = [ IfNDef _U_CFG_APP_PLATFORM_SPECIFIC_H_;
      Define _U_CFG_APP_PLATFORM_SPECIFIC_H_ [];
      Include u_runner_h;
      EndIf ]
  /\ (forall (incl : string -> macros -> result) (st : macros),
        pp_lines incl u_cfg_app_platform_specific_h [] st
        = if defined _U_CFG_APP_PLATFORM_SPECIFIC_H_ st then Ok st []
          else incl u_runner_h (<[_U_CFG_APP_PLATFORM_SPECIFIC_H_ := []]> st))
  /\ (forall (depth : nat) (env : include_env) (st : macros),
        pp_file depth env u_cfg_app_platform_specific_h st
        = if defined _U_CFG_APP_PLATFORM_SPECIFIC_H_ st then Ok st []
          else pp_file depth env guarded_content st)
  /\ (forall (depth : nat) (env : include_env) (st : macros),
        env !! u_runner_h = Some [] ->
        pp_file (S depth) env u_cfg_app_platform_specific_h st
        = Ok (if defined _U_CFG_APP_PLATFORM_SPECIFIC_H_ st then st
              else <[_U_CFG_APP_PLATFORM_SPECIFIC_H_ := []]> st) []).
Proof.
  assert (Hany : forall (incl : string -> macros -> result) (st : macros),
            pp_lines incl header [] st
            = if defined G st then Ok st []
              else incl u_runner_h (<[G := []]> st)).
  { intros incl st. destruct (defined G st) eqn:Hdef.
    - by apply header_when_guarded.
    - by apply header_when_fresh. }
  split; [reflexivity|]. split; [exact Hany|]. split.
  - intros depth env st. unfold pp_file. rewrite Hany, content_alone.
    reflexivity.
  - intros depth env st Hempty. unfold pp_file. rewrite Hany.
    destruct (defined G st); [reflexivity|].
    by rewrite (pp_include_found _ _ _ _ _ Hempty).
Qed.

Lemma header_frame_witness :
  pp_file 1 {[ u_runner_h := [] ]} u_cfg_app_platform_specific_h ∅
  = Ok (<[_U_CFG_APP_PLATFORM_SPECIFIC_H_ := []]> ∅) [].
Proof.
  exact (proj2 (proj2 (proj2 header_frame)) 0 {[ u_runner_h := [] ]} ∅ eq_refl).
Defined.

(** C5 -- interface identity.  In the source tree the header is the file
    at port/platform/nordic/nrf53/cfg/u_cfg_app_platform_specific.h; its
    source lines 17 and 18 test and define the symbol
    _U_CFG_APP_PLATFORM_SPECIFIC_H_, which is the symbol of its include
    guard; and a translation unit that includes the header under that path
    gets a file whose behaviour is decided by that symbol alone. *)
Theorem interface_identity :
  source_tree !! "port/platform/nordic/nrf53/cfg/u_cfg_app_platform_specific.h"
  = Some u_cfg_app_platform_specific_h
  /\ include_guard_of u_cfg_app_platform_specific_h
     = Some "_U_CFG_APP_PLATFORM_SPECIFIC_H_"
  /\ u_cfg_app_platform_specific_h !! 16
     = Some (IfNDef "_U_CFG_APP_PLATFORM_SPECIFIC_H_")
  /\ u_cfg_app_platform_specific_h !! 17
     = Some (Define "_U_CFG_APP_PLATFORM_SPECIFIC_H_" [])
  /\ (forall (env : include_env) (depth : nat) (st : macros),
        pp_include (S depth) (source_tree ∪ env)
          "port/platform/nordic/nrf53/cfg/u_cfg_app_platform_specific.h" st
        = if defined "_U_CFG_APP_PLATFORM_SPECIFIC_H_" st then Ok st []
          else pp_include depth (source_tree ∪ env) "u_runner.h"
                 (<["_U_CFG_APP_PLATFORM_SPECIFIC_H_" := []]> st)).
Proof.
  split; [reflexivity|]. split; [reflexivity|].
  split; [reflexivity|]. split; [reflexivity|].
  intros env depth st.
  assert (Hh : (source_tree ∪ env) !! header_path = Some header).
  { apply lookup_union_Some_l. reflexivity. }
  change "port/platform/nordic/nrf53/cfg/u_cfg_app_platform_specific.h"
    with header_path.
  rewrite (pp_include_found _ _ _ _ _ Hh). unfold pp_file.
  change "_U_CFG_APP_PLATFORM_SPECIFIC_H_" with G.
  destruct (defined G st) eqn:Hdef.
  - by apply header_when_guarded.
  - by apply header_when_fresh.
Qed.

(** C6, as stated, fails.  A [u_runner.h] that undefines the guard before
    it includes the header back makes the re-entrant inclusion process the
    content again, and every nesting allowance is exhausted. *)
Lemma undef_before_reinclusion_recurses :
  env_undef_cycle !! u_runner_h
  = Some [ Undef _U_CFG_APP_PLATFORM_SPECIFIC_H_; Include header_path ]
  /\ forall depth,
       pp_file depth env_undef_cycle u_cfg_app_platform_specific_h ∅
       = Err NestingTooDeep.
Proof.
  split; [reflexivity|].
  assert (Hboth : forall d,
            pp_include d env_undef_cycle header_path ∅ = Err NestingTooDeep
            /\ pp_include d env_undef_cycle u_runner_h (<[G := []]> ∅)
               = Err NestingTooDeep).
  { induction d as [|d [IHh IHr]]; [by split|]. split.
    - rewrite (pp_include_found env_undef_cycle d header_path
                 header ∅ eq_refl).
      unfold pp_file. by rewrite header_when_fresh.
    - rewrite (pp_include_found env_undef_cycle d u_runner_h
                 [Undef G; Include header_path] (<[G := []]> ∅) eq_refl).
      unfold pp_file. simpl.
      rewrite delete_insert_eq, delete_empty. by rewrite IHh. }
  intros depth. unfold pp_file. rewrite header_when_fresh by reflexivity.
  apply Hboth.
Qed.

(** C6, amended -- termination under circular inclusion.  In an
    environment in which no file undefines the guard symbol: (1)
    [u_runner.h] is entered with the guard already defined; (2) an
    inclusion of the header met while the guard is defined expands to
    nothing and goes no deeper; (3) preprocessing the header gives exactly
    what it gives when the header's name resolves to an empty file, so the
    cycle through the header adds no recursion and (4) the nesting
    allowance is exhausted only if it is exhausted without the cycle; (5)
    when [u_runner.h] is text lines around one inclusion of the header,
    preprocessing ends successfully with two levels of nesting and emits
    those lines once. *)
Theorem circular_inclusion_terminates (env : include_env) (h : string)
    (depth : nat) (st : macros)
    (Hh : env !! h = Some u_cfg_app_platform_specific_h)
    (Henv : guard_respected env) :
  (defined _U_CFG_APP_PLATFORM_SPECIFIC_H_ st = false ->
   pp_file depth env u_cfg_app_platform_specific_h st
   = pp_include depth env u_runner_h
       (<[_U_CFG_APP_PLATFORM_SPECIFIC_H_ := []]> st)
   /\ defined _U_CFG_APP_PLATFORM_SPECIFIC_H_
        (<[_U_CFG_APP_PLATFORM_SPECIFIC_H_ := []]> st) = true)
  /\ (forall d st',
        defined _U_CFG_APP_PLATFORM_SPECIFIC_H_ st' = true ->
        pp_include (S d) env h st' = Ok st' [])
  /\ pp_file depth env u_cfg_app_platform_specific_h st
     = pp_file depth (cut h env) u_cfg_app_platform_specific_h st
  /\ (pp_file depth (cut h env) u_cfg_app_platform_specific_h st
      <> Err NestingTooDeep ->
      pp_file depth env u_cfg_app_platform_specific_h st
      <> Err NestingTooDeep)
  /\ (forall d pre post,
        env !! u_runner_h
        = Some ((Text <$> pre) ++ Include h :: (Text <$> post)) ->
        defined _U_CFG_APP_PLATFORM_SPECIFIC_H_ st = false ->
        pp_file (S (S d)) env u_cfg_app_platform_specific_h st
        = Ok (<[_U_CFG_APP_PLATFORM_SPECIFIC_H_ := []]> st)
            (expand_line (<[_U_CFG_APP_PLATFORM_SPECIFIC_H_ := []]> st)
               <$> (pre ++ post))).
Proof.
  assert (Hcut : pp_file depth env header st
                 = pp_file depth (cut h env) header st).
  { unfold pp_file. destruct (defined G st) eqn:Hdef.
    - by rewrite !header_when_guarded.
    - rewrite !header_when_fresh by done.
      apply pp_include_cut; [done|done|apply defined_insert_eq]. }
  split.
  { intros Hfresh. split; [|apply defined_insert_eq].
    unfold pp_file. by apply header_when_fresh. }
  split; [intros d st'; by apply reinclusion_is_void|].
  split; [exact Hcut|].
  split; [by rewrite Hcut|].
  intros d pre post Hf Hfresh. unfold pp_file.
  rewrite header_when_fresh by done.
  rewrite (pp_include_found _ _ _ _ _ Hf). unfold pp_file.
  rewrite text_lines_then by reflexivity.
  rewrite (inclusion_when_guarded env h Hh d _ [] _ (defined_insert_eq _ _ _)).
  rewrite text_lines_only. simpl. by rewrite fmap_app.
Qed.

(** The order of lines 18 and 21 matters: were the guard defined after the
    inclusion, a [u_runner.h] that includes the header back would exhaust
    every nesting allowance. *)
Remark late_guard_recurses (depth : nat) :
  pp_file depth env_late_guard late_guard_header ∅ = Err NestingTooDeep.
Proof.
  assert (Hboth : forall d,
            pp_include d env_late_guard header_path ∅ = Err NestingTooDeep
            /\ pp_include d env_late_guard u_runner_h ∅ = Err NestingTooDeep).
  { induction d as [|d [IHh IHr]].
    - by split.
    - split.
      + rewrite (pp_include_found env_late_guard d header_path
                   late_guard_header ∅ eq_refl).
        unfold pp_file, late_guard_header. simpl. unfold open_group.
        change (defined G ∅) with false. simpl. by rewrite IHr.
      + rewrite (pp_include_found env_late_guard d u_runner_h
                   [Include header_path] ∅ eq_refl).
        unfold pp_file. simpl. by rewrite IHh. }
  unfold pp_file, late_guard_header. simpl. unfold open_group.
  change (defined G ∅) with false. simpl.
  by rewrite (proj2 (Hboth depth)).
Qed.

Lemma circular_inclusion_terminates_witness :
  pp_file 3 env_cyclic u_cfg_app_platform_specific_h ∅
  <> Err NestingTooDeep.
Proof.
  apply (proj1 (proj2 (proj2 (proj2
           (circular_inclusion_terminates env_cyclic header_path 3 ∅
              eq_refl env_cyclic_respects))))).
  vm_compute. discriminate.
Defined.

(** C7, as stated, fails.  The guard does not remain defined for the
    remainder of the translation unit when the unit undefines it: after
    the inclusion and an [#undef] the macro table is empty again. *)
Lemma guard_does_not_outlive_undef :
  pp_file 2 env_plain
    [ Include header_path; Undef _U_CFG_APP_PLATFORM_SPECIFIC_H_ ] ∅
  = Ok ∅ [ ["void"; "run"; "("; "void"; ")"; ";"] ]
  /\ defined _U_CFG_APP_PLATFORM_SPECIFIC_H_ ∅ = false.
Proof. split; vm_compute; reflexivity. Qed.

(** C7, amended -- guard persistence.  (1) No line of the header is an
    [#undef].  (2) Once the guard is defined, preprocessing the header
    leaves the macro table as it is and emits nothing, whatever
    [#include] does.  (3) One inclusion of the header in a translation
    unit preserves "guard defined implies content already emitted", where
    the content counts as emitted when the unit's output shows that
    [u_runner.h] was entered from the header; and the inclusion changes
    nothing at all when the guard is defined.  (4) Resuming the header at
    any of its lines, with any stack of open conditionals, never ends with
    the guard undefined if it was defined, as long as the included file
    does not undefine it.  (5) In an environment in which no file
    undefines the guard, every successful preprocessing of the header
    ends with the guard defined. *)
Theorem guard_persists :
  Forall (fun l => forall m, l <> Undef m) u_cfg_app_platform_specific_h
  /\ (forall (incl : string -> macros -> result) (st : macros),
        defined _U_CFG_APP_PLATFORM_SPECIFIC_H_ st = true ->
        pp_lines incl u_cfg_app_platform_specific_h [] st = Ok st [])
  /\ (forall (depth : nat) (env : include_env) (s s' : tu_state),
        guard_invariant s -> include_step depth env s = Some s' ->
        guard_invariant s'
        /\ (defined _U_CFG_APP_PLATFORM_SPECIFIC_H_ (tu_macros s) = true ->
            s' = s))
  /\ (forall (incl : string -> macros -> result),
        (forall n st st' out,
            defined _U_CFG_APP_PLATFORM_SPECIFIC_H_ st = true ->
            incl n st = Ok st' out ->
            defined _U_CFG_APP_PLATFORM_SPECIFIC_H_ st' = true) ->
        forall (k : nat) (cs : list frame) (st st' : macros) (out : output),
          defined _U_CFG_APP_PLATFORM_SPECIFIC_H_ st = true ->
          pp_lines incl (drop k u_cfg_app_platform_specific_h) cs st
          = Ok st' out ->
          defined _U_CFG_APP_PLATFORM_SPECIFIC_H_ st' = true)
  /\ (forall (depth : nat) (env : include_env) (st st' : macros)
        (out : output),
        guard_respected env ->
        pp_file depth env u_cfg_app_platform_specific_h st = Ok st' out ->
        defined _U_CFG_APP_PLATFORM_SPECIFIC_H_ st' = true).
Proof.
  split.
  { unfold u_cfg_app_platform_specific_h.
    repeat (constructor; [intros m; discriminate|]). constructor. }
  split; [intros incl st; apply header_when_guarded|].
  split.
  { intros depth env s s' Hinv. unfold include_step.
    destruct (defined G (tu_macros s)) eqn:Hdef.
    - rewrite header_when_guarded by done. intros [= <-].
      assert (Hs : TuState (tu_macros s) (tu_output s ++ []) = s).
      { destruct s as [st out]. simpl. by rewrite app_nil_r. }
      rewrite Hs. by split.
    - rewrite header_when_fresh by done. unfold marked.
      destruct (pp_include depth env u_runner_h _) as [st1 out1|e];
        [|discriminate].
      simpl. intros [= <-]. split; [|intros [=]].
      intros _. unfold content_emitted. simpl.
      apply bool_decide_eq_true_2, elem_of_app. right. constructor. }
  split.
  { intros incl Hincl k cs st st' out Hdef Hrun.
    eapply (pp_lines_keeps G incl Hincl); [|exact Hdef|exact Hrun].
    apply Forall_drop. unfold no_undef, u_cfg_app_platform_specific_h.
    repeat (constructor; [reflexivity|]). constructor. }
  intros depth env st st' out Henv. unfold pp_file.
  destruct (defined G st) eqn:Hdef.
  - rewrite header_when_guarded by done. by intros [= <- _].
  - rewrite header_when_fresh by done.
    apply pp_include_keeps_guard; [done|apply defined_insert_eq].
Qed.

Lemma guard_persists_witness :
  include_step 2 env_plain (TuState ∅ [])
  = Some (TuState (<[_U_CFG_APP_PLATFORM_SPECIFIC_H_ := []]> ∅)
            [ linemarker u_runner_h;
              ["void"; "run"; "("; "void"; ")"; ";"] ])
  /\ content_emitted
       [ linemarker u_runner_h; ["void"; "run"; "("; "void"; ")"; ";"] ]
     = true.
Proof.
  assert (Hstep : include_step 2 env_plain (TuState ∅ [])
                  = Some (TuState (<[_U_CFG_APP_PLATFORM_SPECIFIC_H_ := []]> ∅)
                            [ linemarker u_runner_h;
                              ["void"; "run"; "("; "void"; ")"; ";"] ])).
  { vm_compute. reflexivity. }
  split; [exact Hstep|].
  refine (proj1 (proj1 (proj2 (proj2 guard_persists)) 2 env_plain
                   (TuState ∅ []) _ _ Hstep) _).
  - intros Hdef. vm_compute in Hdef. discriminate.
  - reflexivity.
Defined.

(** C8, as stated, fails.  Two environments resolve [u_runner.h] to the
    same contents and differ in a file that [u_runner.h] includes: from
    the same macro table the header emits different text. *)
Lemma same_runner_different_output :
  env_dependency_a !! u_runner_h = env_dependency_b !! u_runner_h
  /\ pp_file 3 env_dependency_a u_cfg_app_platform_specific_h ∅
     = Ok (<[_U_CFG_APP_PLATFORM_SPECIFIC_H_ := []]> ∅) [ ["int"; "a"; ";"] ]
  /\ pp_file 3 env_dependency_b u_cfg_app_platform_specific_h ∅
     = Ok (<[_U_CFG_APP_PLATFORM_SPECIFIC_H_ := []]> ∅) [ ["int"; "b"; ";"] ].
Proof. repeat split; vm_compute; reflexivity. Qed.

(** C8, amended -- deterministic expansion.  (1) Two runs with the same
    nesting allowance, from the same macro table, in two include
    environments that resolve alike [u_runner.h] and every name reachable
    from it through [#include], give the same result for the header,
    whatever else the environments hold.  (2) With the guard defined the
    result depends on neither the environment nor the allowance. *)
Theorem expansion_deterministic (names : gset string)
    (env1 env2 : include_env) (depth : nat) (st : macros) :
  (u_runner_h ∈ names ->
   closed_under_inclusion names env1 ->
   agree_on names env1 env2 ->
   pp_file depth env1 u_cfg_app_platform_specific_h st
   = pp_file depth env2 u_cfg_app_platform_specific_h st)
  /\ (forall d1 d2,
        defined _U_CFG_APP_PLATFORM_SPECIFIC_H_ st = true ->
        pp_file d1 env1 u_cfg_app_platform_specific_h st
        = pp_file d2 env2 u_cfg_app_platform_specific_h st).
Proof.
  split.
  - intros Hin Hclosed Hagree. unfold pp_file.
    destruct (defined G st) eqn:Hdef.
    + by rewrite !header_when_guarded.
    + rewrite !header_when_fresh by done.
      by apply (pp_include_agree names).
  - intros d1 d2 Hdef. unfold pp_file. by rewrite !header_when_guarded.
Qed.

Lemma runner_names_closed :
  closed_under_inclusion {[ u_runner_h ]} env_plain.
Proof.
  intros n f m Hn Hf Hm. apply elem_of_singleton in Hn. subst n.
  assert (Hlook : env_plain !! u_runner_h = Some one_declaration)
    by reflexivity.
  rewrite Hlook in Hf. injection Hf as <-.
  vm_compute in Hm. inversion Hm.
Qed.

Lemma runner_names_agree :
  agree_on {[ u_runner_h ]} env_plain
    (<["unrelated.h" := [Text ["int"; "y"; ";"]]]> env_plain).
Proof.
  intros n Hn. apply elem_of_singleton in Hn. subst n.
  vm_compute. reflexivity.
Qed.

Lemma expansion_deterministic_witness :
  pp_file 2 env_plain u_cfg_app_platform_specific_h ∅
  = pp_file 2 (<["unrelated.h" := [Text ["int"; "y"; ";"]]]> env_plain)
      u_cfg_app_platform_specific_h ∅.
Proof.
  apply (proj1 (expansion_deterministic {[ u_runner_h ]} env_plain
                  (<["unrelated.h" := [Text ["int"; "y"; ";"]]]> env_plain)
                  2 ∅)).
  - apply elem_of_singleton. reflexivity.
  - exact runner_names_closed.
  - exact runner_names_agree.
Defined.

End IncludeGuard.

(** ** Further properties of the header

    What the source lines show beyond the statements above: the effect of
    the empty replacement list of line 18 on later text, the balance of
    lines 17 and 31, and how the guard behaves when the unit undefines it
    or reaches the header under another name. *)

Module Coverage.

Import Preprocessor PreprocessorFacts Header HeaderFacts Scenarios.
Import IncludeGuard.

Section Empty.

(** Lines that keep the guard defined as empty keep it so through a whole
    file, whatever the stack of conditionals. *)
Variable incl : string -> macros -> result.

Hypothesis incl_keeps_empty :
  forall n st st' out,
    st !! G = Some [] -> incl n st = Ok st' out -> st' !! G = Some [].

Lemma pp_lines_keeps_empty (ls : list line) :
  forall cs st st' out,
    Forall (fun l => keeps_guard_empty l = true) ls ->
    st !! G = Some [] ->
    pp_lines incl ls cs st = Ok st' out -> st' !! G = Some [].
Proof.
  induction ls as [|l rest IH]; intros cs st st' out Hls Hg Hrun.
  - simpl in Hrun. destruct cs; [|discriminate].
    by injection Hrun as <- _.
  - apply Forall_cons in Hls as [Hl Hrest].
    destruct l; simpl in Hrun.
    + eauto.
    + eauto.
    + eauto.
    + destruct cs as [|f cs']; [discriminate|].
      destruct (seen_else f); [discriminate|]. eauto.
    + destruct cs as [|f cs']; [discriminate|]. eauto.
    + destruct (is_active cs); [|by eauto].
      eapply IH; [done| |exact Hrun].
      simpl in Hl. case_bool_decide as Hm; simpl in Hl.
      * apply bool_decide_eq_true in Hl. subst. by rewrite lookup_insert_eq.
      * by rewrite lookup_insert_ne.
    + destruct (is_active cs); [|by eauto].
      eapply IH; [done| |exact Hrun].
      simpl in Hl. apply negb_true_iff, bool_decide_eq_false in Hl.
      by rewrite lookup_delete_ne.
    + destruct (is_active cs); [|by eauto].
      destruct (incl name st) as [st1 out1|e] eqn:E; [|discriminate].
      simpl in Hrun.
      destruct (pp_lines incl rest cs st1) as [st2 out2|e] eqn:E2;
        [|discriminate].
      simpl in Hrun. injection Hrun as <- _.
      eapply IH; [done| |exact E2]. eauto.
    + destruct (is_active cs); [|by eauto].
      destruct (pp_lines incl rest cs st) as [st2 out2|e] eqn:E2;
        [|discriminate].
      simpl in Hrun. injection Hrun as <- _. eauto.
Qed.

End Empty.

Lemma pp_include_keeps_empty (env : include_env) (depth : nat) :
  guard_untouched env ->
  forall n st st' out,
    st !! G = Some [] ->
    pp_include depth env n st = Ok st' out -> st' !! G = Some [].
Proof.
  intros Henv. induction depth as [|d IH]; intros n st st' out Hg Hrun.
  - by rewrite pp_include_exhausted in Hrun.
  - destruct (env !! n) as [f|] eqn:En.
    + rewrite (pp_include_found _ _ _ _ _ En) in Hrun.
      exact (pp_lines_keeps_empty _ IH f _ _ _ _ (Henv n f En) Hg Hrun).
    + by rewrite pp_include_missing in Hrun.
Qed.

(** A macro with an empty replacement list leaves no trace in a line. *)
Lemma expand_line_without_guard (st : macros) (toks : list token) :
  st !! G = Some [] ->
  expand_line st toks = expand_line st (without_guard toks).
Proof.
  intros Hg. unfold expand_line, without_guard. simpl.
  induction toks as [|t toks IH]; [reflexivity|].
  rewrite filter_cons. destruct (decide (t <> G)) as [Hne|Heq].
  - simpl. by rewrite IH.
  - apply dec_stable in Heq. subst t. simpl. rewrite Hg.
    rewrite <- IH. by destruct (size st).
Qed.

(** X1 -- the guard is defined with an empty replacement list (line 18).
    Once the header has been included from a state without the guard, in
    an environment where nothing else defines or undefines the symbol, the
    guard symbol disappears from the text that follows: a text line right
    after the inclusion gives the same output with or without its
    occurrences of the symbol. *)
Theorem guard_token_vanishes (env : include_env) (h : string) (depth : nat)
    (st : macros) (toks : list token) (tu : file) :
  env !! h = Some u_cfg_app_platform_specific_h ->
  guard_untouched env ->
  defined _U_CFG_APP_PLATFORM_SPECIFIC_H_ st = false ->
  pp_file depth env (Include h :: Text toks :: tu) st
  = pp_file depth env (Include h :: Text (without_guard toks) :: tu) st.
Proof.
  intros Hh Henv Hfresh. unfold pp_file. simpl.
  destruct (pp_include depth env h st) as [st1 out1|e] eqn:E; [|reflexivity].
  simpl. f_equal. f_equal. f_equal. apply expand_line_without_guard.
  destruct depth as [|d].
  { by rewrite pp_include_exhausted in E. }
  rewrite (pp_include_found _ _ _ _ _ Hh) in E. unfold pp_file in E.
  rewrite header_when_fresh in E by done.
  eapply pp_include_keeps_empty; [exact Henv| |exact E].
  apply lookup_insert_eq.
Qed.

Lemma env_plain_untouched : guard_untouched env_plain.
Proof. unfold guard_untouched. by_computation. Qed.

Lemma guard_token_vanishes_witness :
  pp_file 2 env_plain
    [ Include header_path;
      Text ["int"; _U_CFG_APP_PLATFORM_SPECIFIC_H_; "z"; ";"] ] ∅
  = pp_file 2 env_plain
      [ Include header_path;
        Text (without_guard
                ["int"; _U_CFG_APP_PLATFORM_SPECIFIC_H_; "z"; ";"]) ] ∅.
Proof.
  exact (guard_token_vanishes env_plain header_path 2 ∅
           ["int"; _U_CFG_APP_PLATFORM_SPECIFIC_H_; "z"; ";"] []
           eq_refl env_plain_untouched eq_refl).
Defined.

(** X2 -- the header is balanced and its comments are inert.  The
    conditional opened on line 17 is closed on line 31 and lines 1-16 and
    32-33 hold comments only, so the header's lines can be followed by any
    lines [rest], under any stack [cs] of conditionals already open: where
    text is being processed, [rest] continues in the same stack from the
    result of the header alone; where text is being skipped, the header
    does nothing at all (the guard is not defined, [u_runner.h] is not
    included) and [rest] continues unchanged. *)
Theorem header_is_self_contained (incl : string -> macros -> result)
    (rest : file) (cs : list frame) (st : macros) :
  pp_lines incl (u_cfg_app_platform_specific_h ++ rest) cs st
  = if is_active cs
    then and_then (pp_lines incl u_cfg_app_platform_specific_h [] st)
           (pp_lines incl rest cs)
    else pp_lines incl rest cs st.
Proof.
  destruct (is_active cs) eqn:Hact.
  - destruct (defined G st) eqn:Hdef.
    + rewrite header_when_guarded by done. simpl. rewrite emit_nil.
      unfold open_group. by rewrite Hact, Hdef.
    + rewrite header_when_fresh by done. simpl.
      unfold open_group. rewrite Hact, Hdef. simpl.
      destruct (incl u_runner_h (<[G := []]> st)); reflexivity.
  - simpl. unfold open_group. rewrite Hact. reflexivity.
Qed.

(** X3 -- the guard is the header's only protection.  After an [#undef] of
    the guard symbol, the next inclusion of the header processes the
    guarded content again, whatever came before: the guard is defined anew
    and [u_runner.h] is brought in once more. *)
Theorem undef_reopens_header (env : include_env) (h : string) (d : nat)
    (st : macros) (tu : file) :
  env !! h = Some u_cfg_app_platform_specific_h ->
  pp_file (S d) env
    (Undef _U_CFG_APP_PLATFORM_SPECIFIC_H_ :: Include h :: tu) st
  = and_then
      (pp_include d env u_runner_h
         (<[_U_CFG_APP_PLATFORM_SPECIFIC_H_ := []]> st))
      (pp_file (S d) env tu).
Proof.
  intros Hh. unfold pp_file at 1. simpl.
  rewrite (pp_include_found _ _ _ _ _ Hh). unfold pp_file at 1.
  rewrite header_when_fresh.
  - by rewrite insert_delete_eq.
  - apply defined_false, lookup_delete_eq.
Qed.

Lemma undef_reopens_header_witness :
  pp_file 2 env_plain
    [ Include header_path;
      Undef _U_CFG_APP_PLATFORM_SPECIFIC_H_;
      Include header_path ] ∅
  = Ok (<[_U_CFG_APP_PLATFORM_SPECIFIC_H_ := []]> ∅)
      [ ["void"; "run"; "("; "void"; ")"; ";"];
        ["void"; "run"; "("; "void"; ")"; ";"] ].
Proof.
  change (pp_file 2 env_plain
            [ Include header_path;
              Undef _U_CFG_APP_PLATFORM_SPECIFIC_H_;
              Include header_path ] ∅)
    with (emit [["void"; "run"; "("; "void"; ")"; ";"]]
            (pp_file 2 env_plain
               [ Undef _U_CFG_APP_PLATFORM_SPECIFIC_H_; Include header_path ]
               (<[_U_CFG_APP_PLATFORM_SPECIFIC_H_ := []]> ∅))).
  rewrite (undef_reopens_header env_plain header_path 1
             (<[_U_CFG_APP_PLATFORM_SPECIFIC_H_ := []]> ∅) [] eq_refl).
  vm_compute. reflexivity.
Defined.

(** X4 -- once the guard is defined the header is an empty file to
    everyone.  In an environment that respects the guard symbol, any
    translation unit that does not undefine it, started with the guard
    defined, is preprocessed exactly as if the header's name resolved to
    an empty file, however often and through whatever other files the
    header is reached. *)
Theorem guarded_header_is_empty_file (env : include_env) (h : string)
    (depth : nat) (tu : file) (st : macros) :
  env !! h = Some u_cfg_app_platform_specific_h ->
  guard_respected env ->
  no_undef _U_CFG_APP_PLATFORM_SPECIFIC_H_ tu ->
  defined _U_CFG_APP_PLATFORM_SPECIFIC_H_ st = true ->
  pp_file depth env tu st = pp_file depth (cut h env) tu st.
Proof.
  intros Hh Henv Htu Hdef. by apply pp_file_cut.
Qed.

Lemma guarded_header_is_empty_file_witness :
  pp_file 3 env_cyclic [ Include "mid.h"; Include header_path ]
    guard_predefined
  = pp_file 3 (cut header_path env_cyclic)
      [ Include "mid.h"; Include header_path ] guard_predefined.
Proof.
  apply (guarded_header_is_empty_file env_cyclic header_path 3
           [ Include "mid.h"; Include header_path ] guard_predefined
           eq_refl env_cyclic_respects).
  - unfold no_undef. by_computation.
  - reflexivity.
Defined.

(** X5 -- the guard works by symbol, not by file name.  When the header
    is reachable under two names, an inclusion under the second name right
    after one under the first expands to nothing. *)
Theorem guard_holds_across_names (env : include_env) (h1 h2 : string)
    (depth : nat) (tu : file) (st : macros) :
  env !! h1 = Some u_cfg_app_platform_specific_h ->
  env !! h2 = Some u_cfg_app_platform_specific_h ->
  guard_respected env ->
  pp_file depth env (Include h1 :: Include h2 :: tu) st
  = pp_file depth env (Include h1 :: tu) st.
Proof.
  intros Hh1 Hh2 Henv. unfold pp_file. simpl.
  destruct (pp_include depth env h1 st) as [st1 out1|e] eqn:E;
    [|reflexivity].
  simpl. f_equal.
  pose proof (guard_defined_after env Henv h1 Hh1 _ _ _ _ E) as Hdef.
  destruct depth as [|d].
  { by rewrite pp_include_exhausted in E. }
  rewrite (reinclusion_is_void env h2 Hh2 d st1 Hdef). simpl.
  apply emit_nil.
Qed.

Lemma env_two_names_respects : guard_respected env_two_names.
Proof. unfold guard_respected, no_undef. by_computation. Qed.

Lemma guard_holds_across_names_witness :
  pp_file 2 env_two_names
    [ Include header_path; Include "u_cfg_app_platform_specific.h" ] ∅
  = pp_file 2 env_two_names [ Include header_path ] ∅.
Proof.
  exact (guard_holds_across_names env_two_names header_path
           "u_cfg_app_platform_specific.h" 2 [] ∅
           eq_refl eq_refl env_two_names_respects).
Defined.

End Coverage.
